(** * SequenceLabelField: a shallow embedding of
    [allennlp/data/fields/sequence_label_field.py]

    The Python class is embedded as a record of its four attributes and one
    Rocq function per method.  A method that assigns to [self] returns the
    updated record; [count_vocab_items], which mutates the caller's counter
    in place, returns the updated counter; a method that can raise returns
    [result]; the constructor, which also logs, returns [Py]. *)

From Stdlib Require Import Ascii.
From stdpp Require Import gmap strings list fin_maps pretty.

Local Open Scope Z_scope.

(** ** Python values that occur as labels

    [labels : Union[List[str], List[int]]].  Nothing stops a caller from
    mixing both kinds in one list, so a label list is a [list label]. *)

Inductive label : Type :=
  | LStr (s : string)
  | LInt (z : Z).

#[global] Instance label_eq_dec : EqDecision label.
Proof. solve_decision. Defined.

Definition label_to_sum (l : label) : string + Z :=
  match l with LStr s => inl s | LInt z => inr z end.

Definition label_of_sum (x : string + Z) : label :=
  match x with inl s => LStr s | inr z => LInt z end.

#[global] Instance label_countable : Countable label.
Proof.
  refine (inj_countable' label_to_sum label_of_sum _).
  intros l. destruct l; reflexivity.
Defined.

(** [isinstance(x, int)] *)
Definition isinstance_int (x : label) : bool :=
  match x with LInt _ => true | LStr _ => false end.

(** The integers of a label list.  On a list that passed
    [all([isinstance(x, int) for x in labels])] this is the list itself,
    retyped (see [as_ints_all_int]). *)
Definition as_ints (labels : list label) : list Z :=
  omap (λ x, match x with LInt z => Some z | LStr _ => None end) labels.

(** [len(xs)], a Python int. *)
Definition len {A : Type} (xs : list A) : Z := Z.of_nat (length xs).

(** ** Exceptions, results and the logger *)

Inductive exn : Type :=
  | ConfigurationError (message : string)
  | AttributeError (message : string)
  | KeyError (key : string)
  | UnresolvedMaterializationError.

Definition result (A : Type) : Type := exn + A.

(** A computation that may call [logger.warning] and then either raises or
    returns: the messages logged, in order, and the outcome. *)
Definition Py (A : Type) : Type := (list string * result A)%type.

#[global] Instance Py_ret : MRet Py := λ A a, ([], inr a).

#[global] Instance Py_bind : MBind Py := λ A B k m,
  match m with
  | (w, inl e) => (w, inl e)
  | (w, inr a) => let '(w', r) := k a in (w ++ w', r)
  end.

Definition raise {A : Type} (e : exn) : Py A := ([], inl e).

Definition warning (message : string) : Py unit := ([message], inr tt).

(** [str.endswith] *)
Definition endswith (s suffix : string) : bool :=
  let n := String.length s in
  let k := String.length suffix in
  if (k <=? n)%nat
  then bool_decide (String.substring (n - k) k s = suffix)
  else false.

(** ** Collaborators *)

(** Modelled from the spec: [SequenceField], the companion LengthSource
    (allennlp/data/fields/sequence_field.py is not part of the sources).  It
    exposes only [sequence_length() -> integer]. *)
Record SequenceField : Type := { sequence_length : Z }.

(** Modelled from the spec: [Vocabulary] (allennlp/data/vocabulary.py is not
    part of the sources): a stable, deterministic
    [get_token_index(label, namespace) -> integer]. *)
Record Vocabulary : Type := { get_token_index : label → string → Z }.

(** The frequency table [counter : Dict[str, Dict[str, int]]].
    Modelled from the spec: the table is the caller's
    [defaultdict(lambda: defaultdict(int))], "a mapping namespace -> (label
    -> integer count), mutated via increment"; a key that is missing reads
    as the empty table, respectively as 0. *)
Abbreviation Counter := (gmap string (gmap label Z)).

(** [counter[namespace][l]], read without inserting. *)
Definition count_of (counter : Counter) (namespace : string) (l : label) : Z :=
  default 0 (default ∅ (counter !! namespace) !! l).

(** [counter[namespace][l] += 1] *)
Definition increment (counter : Counter) (namespace : string) (l : label)
  : Counter :=
  let inner := default ∅ (counter !! namespace) in
  <[namespace := <[l := default 0 (inner !! l) + 1]> inner]> counter.

(** [sequence[:stop]], the Python slice: a negative [stop] counts from
    the end, and a [stop] beyond either end is clipped. *)
Definition slice_to {A : Type} (sequence : list A) (stop : Z) : list A :=
  if 0 <=? stop
  then take (Z.to_nat stop) sequence
  else take (Z.to_nat (len sequence + stop)) sequence.

(** Modelled from the spec: [pad_sequence_to_length] of
    allennlp/common/util.py, which is not part of the sources, called with
    its default pad value 0 and padding on the right.  The sequence must
    be present ("fail loudly (e.g., a null/absent-value error)"); the
    result is a new list, "the first N entries ... in order; remaining
    entries are filled with a fixed sentinel pad value (0)".  The helper
    makes no length check: it starts from the slice
    [sequence[:desired_length]] and appends zeros while the list is
    shorter than desired, so a desired length below the sequence's
    length gives the sequence without its tail. *)
Definition pad_sequence_to_length (sequence : option (list Z))
    (desired_length : Z) : result (list Z) :=
  match sequence with
  | None => inl UnresolvedMaterializationError
  | Some s =>
      let padded_sequence := slice_to s desired_length in
      inr (padded_sequence
           ++ replicate (Z.to_nat (desired_length - len padded_sequence)) 0)
  end.

(** ** [numpy.asarray] on a flat list of Python ints

    numpy is a library the module imports.  On a platform whose default
    integer is 64 bits wide, [numpy.asarray] gives every int the type
    [int64] where it fits, [uint64] where it fits only unsigned, and
    [object] otherwise; the array has the common type of its entries,
    which for [int64] next to [uint64] is [float64], and an empty list
    gives an empty [float64] array.  A [float64] entry is the double
    nearest to the int (ties to even); being the image of an int below
    [2 ^ 64] in size, it is an integer again and is kept as such. *)

Inductive dtype : Type := int64 | uint64 | float64 | object.

Record ndarray : Type := { array_dtype : dtype; entries : list Z }.

Definition int_dtype (z : Z) : dtype :=
  if bool_decide (- 2 ^ 63 ≤ z < 2 ^ 63) then int64
  else if bool_decide (2 ^ 63 ≤ z < 2 ^ 64) then uint64
  else object.

Definition promote_types (a b : dtype) : dtype :=
  match a, b with
  | object, _ | _, object => object
  | int64, int64 => int64
  | uint64, uint64 => uint64
  | _, _ => float64
  end.

Definition result_type (xs : list Z) : dtype :=
  match xs with
  | [] => float64
  | x :: xs => foldl (λ d y, promote_types d (int_dtype y)) (int_dtype x) xs
  end.

(** The double nearest to [z], for [|z| < 2 ^ 64]. *)
Definition float64_of_int (z : Z) : Z :=
  let a := Z.abs z in
  if a <? 2 ^ 53 then z
  else
    let e := Z.log2 a - 52 in
    let q := a / 2 ^ e in
    let r := a mod 2 ^ e in
    let half := 2 ^ (e - 1) in
    let q' := if r <? half then q
              else if half <? r then q + 1
              else if Z.even q then q else q + 1 in
    Z.sgn z * (q' * 2 ^ e).

Definition numpy_asarray (xs : list Z) : ndarray :=
  let d := result_type xs in
  {| array_dtype := d;
     entries := match d with
                | float64 => map float64_of_int xs
                | _ => xs
                end |}.

(** ** The class *)

Record SequenceLabelField : Type := {
  _labels : list label;
  _sequence_field : option SequenceField;
  _label_namespace : string;
  _indexed_labels : option (list Z)
}.

(** [self._indexed_labels = v] *)
Definition set_indexed_labels (self : SequenceLabelField)
    (v : option (list Z)) : SequenceLabelField :=
  {| _labels := _labels self;
     _sequence_field := _sequence_field self;
     _label_namespace := _label_namespace self;
     _indexed_labels := v |}.

Definition default_label_namespace : string := "labels".

(** The message of the namespace warning, with its [%s] filled in. *)
Definition namespace_warning (label_namespace : string) : string :=
  "Your sequence label namespace was '" +:+ label_namespace +:+
  "'. We recommend you use a namespace " +:+
  "ending with 'tags' or 'labels', so we don't add UNK and PAD tokens by " +:+
  "default to your vocabulary.  See documentation for " +:+
  "`non_padded_namespaces` parameter in Vocabulary.".

(** ["Label length and sequence length don't match: %d and %d" % (a, b)] *)
Definition mismatch_message (a b : Z) : string :=
  "Label length and sequence length " +:+
  "don't match: " +:+ pretty a +:+ " and " +:+ pretty b.

(** [sequence_field.sequence_length()], where [sequence_field] may be the
    Python [None]. *)
Definition call_sequence_length (sequence_field : option SequenceField)
  : Py Z :=
  match sequence_field with
  | None => raise (AttributeError
      "'NoneType' object has no attribute 'sequence_length'")
  | Some sf => mret (sequence_length sf)
  end.

Definition __init__ (labels : list label)
    (sequence_field : option SequenceField) (label_namespace : string)
  : Py SequenceLabelField :=
  let self := {| _labels := labels;
                 _sequence_field := sequence_field;
                 _label_namespace := label_namespace;
                 _indexed_labels := None |} in
  (if negb (endswith label_namespace "tags"
            || endswith label_namespace "labels")
   then warning (namespace_warning label_namespace)
   else mret tt) ;;
  n ← call_sequence_length sequence_field ;
  (if bool_decide (len labels ≠ n)
   then m ← call_sequence_length sequence_field ;
        raise (ConfigurationError (mismatch_message (len labels) m))
   else mret tt) ;;
  if forallb isinstance_int labels
  then mret (set_indexed_labels self (Some (as_ints labels)))
  else mret self.

Definition count_vocab_items (self : SequenceLabelField) (counter : Counter)
  : Counter :=
  match _indexed_labels self with
  | None =>
      foldl (λ c l, increment c (_label_namespace self) l)
            counter (_labels self)
  | Some _ => counter
  end.

Definition index (vocab : Vocabulary) (self : SequenceLabelField)
  : SequenceLabelField :=
  match _indexed_labels self with
  | None =>
      set_indexed_labels self
        (Some (map (λ l, get_token_index vocab l (_label_namespace self))
                   (_labels self)))
  | Some _ => self
  end.

Definition get_padding_lengths (self : SequenceLabelField)
  : result (gmap string Z) :=
  match _sequence_field self with
  | None => inl (AttributeError
      "'NoneType' object has no attribute 'sequence_length'")
  | Some sf => inr {[ "num_tokens" := sequence_length sf ]}
  end.

Definition as_array (self : SequenceLabelField)
    (padding_lengths : gmap string Z) : result ndarray :=
  match padding_lengths !! "num_tokens" with
  | None => inl (KeyError "num_tokens")
  | Some desired_num_tokens =>
      match pad_sequence_to_length (_indexed_labels self)
                                   desired_num_tokens with
      | inl e => inl e
      | inr padded_tags => inr (numpy_asarray padded_tags)
      end
  end.

(** [empty_field] ignores [self]; it builds
    [SequenceLabelField([], None)] with the default namespace and then
    assigns [_indexed_labels = []]. *)
Definition empty_field (self : SequenceLabelField) : Py SequenceLabelField :=
  sequence_label_field ← __init__ [] None default_label_namespace ;
  mret (set_indexed_labels sequence_label_field (Some [])).

Definition labels (self : SequenceLabelField) : list label := _labels self.

(** ** A field in use

    After construction a field is driven by its methods in any order.
    [run] performs a list of calls on a field and on the caller's counter.
    Only [index] assigns to [self], only [count_vocab_items] writes to the
    counter; a call that raises leaves both as they were. *)

Inductive call : Type :=
  | CountVocabItems
  | Index (vocab : Vocabulary)
  | GetPaddingLengths
  | AsArray (padding_lengths : gmap string Z)
  | Labels.

Inductive returned : Type :=
  | RNone
  | RPaddingLengths (r : result (gmap string Z))
  | RArray (r : result ndarray)
  | RLabels (r : list label).

Definition step (c : call) (st : SequenceLabelField * Counter)
  : SequenceLabelField * Counter * returned :=
  let '(self, counter) := st in
  match c with
  | CountVocabItems => (self, count_vocab_items self counter, RNone)
  | Index vocab => (index vocab self, counter, RNone)
  | GetPaddingLengths => (self, counter, RPaddingLengths (get_padding_lengths self))
  | AsArray padding_lengths =>
      (self, counter, RArray (as_array self padding_lengths))
  | Labels => (self, counter, RLabels (labels self))
  end.

Fixpoint run (calls : list call) (st : SequenceLabelField * Counter)
  : SequenceLabelField * Counter :=
  match calls with
  | [] => st
  | c :: calls => run calls (step c st).1
  end.

(** What holds of a field from its construction on: the companion is
    there and reports the number of labels, and resolved ids, once
    present, are as many as the labels. *)
Definition consistent (self : SequenceLabelField) : Prop :=
  (∃ sf, _sequence_field self = Some sf
         ∧ sequence_length sf = len (_labels self))
  ∧ (∀ ids, _indexed_labels self = Some ids
            → length ids = length (_labels self)).

(** Number of occurrences of [l] in [ls], as a Python int. *)
Definition occurrences (l : label) (ls : list label) : Z :=
  len (filter (λ x, x = l) ls).

(** What [__init__] logs: nothing, or the one namespace warning. *)
Definition logged (ns : string) : list string :=
  if endswith ns "tags" || endswith ns "labels"
  then [] else [namespace_warning ns].

(** Whether a string contains a blank. *)
Fixpoint has_blank (s : string) : bool :=
  match s with
  | EmptyString => false
  | String a s => bool_decide (a = " "%char) || has_blank s
  end.

(** ** Inputs for worked examples *)

Module Examples.

(** A vocabulary with B-PER=1, I-PER=2, O=3 in namespace "labels". *)
Definition ner_vocab : Vocabulary :=
  {| get_token_index := λ l ns,
       if bool_decide (ns = "labels") then
         match l with
         | LStr s =>
             if bool_decide (s = "B-PER") then 1
             else if bool_decide (s = "I-PER") then 2
             else if bool_decide (s = "O") then 3 else 0
         | LInt _ => 0
         end
       else 0 |}.

Definition ner_labels : list label := [LStr "B-PER"; LStr "I-PER"; LStr "O"].

Definition three_tokens : SequenceField := {| sequence_length := 3 |}.

Definition ner_field : SequenceLabelField :=
  {| _labels := ner_labels; _sequence_field := Some three_tokens;
     _label_namespace := "labels"; _indexed_labels := None |}.

Definition int_labels : list label := [LInt 4; LInt 0; LInt 4].

Definition int_field : SequenceLabelField :=
  {| _labels := int_labels; _sequence_field := Some three_tokens;
     _label_namespace := "tags"; _indexed_labels := Some [4; 0; 4] |}.

(** One string among integers: the whole list goes through the
    vocabulary. *)
Definition mixed_labels : list label := [LInt 7; LStr "O"; LInt 7].

Definition mixed_field : SequenceLabelField :=
  {| _labels := mixed_labels; _sequence_field := Some three_tokens;
     _label_namespace := "labels"; _indexed_labels := None |}.

End Examples.

(** ** Reading a list of calls *)

(** The vocabulary of the first [Index] among [calls], if there is one. *)
Fixpoint first_index (calls : list call) : option Vocabulary :=
  match calls with
  | [] => None
  | Index vocab :: _ => Some vocab
  | _ :: calls => first_index calls
  end.

(** How many [CountVocabItems] come before the first [Index]. *)
Fixpoint counts_before_index (calls : list call) : nat :=
  match calls with
  | [] => 0
  | Index _ :: _ => 0
  | CountVocabItems :: calls => S (counts_before_index calls)
  | _ :: calls => counts_before_index calls
  end.

(** The entry [counter[namespace][l]] as a dictionary holds it: [None]
    where the key is not there. *)
Definition entry (counter : Counter) (namespace : string) (l : label)
  : option Z :=
  counter !! namespace ≫= (.!! l).

(** * Properties *)

(** ** Labels and their integers *)

Lemma as_ints_all_int (ls : list label) :
  forallb isinstance_int ls = true → LInt <$> as_ints ls = ls.
Proof.
  induction ls as [|x ls IH]; [reflexivity|].
  destruct x as [s|z]; simpl; [discriminate|].
  intros H. unfold as_ints in *. simpl. f_equal. apply IH, H.
Qed.

Lemma as_ints_length (ls : list label) :
  forallb isinstance_int ls = true → length (as_ints ls) = length ls.
Proof.
  intros H. rewrite <- (as_ints_all_int ls H) at 2.
  symmetry. apply length_fmap.
Qed.

Lemma forallb_isinstance_int_false (ls : list label) :
  forallb isinstance_int ls = false ↔ ∃ s, LStr s ∈ ls.
Proof.
  induction ls as [|x ls IH]; simpl.
  - split; [discriminate|]. intros [s Hs]. inversion Hs.
  - destruct x as [s|z]; simpl.
    + split; [|reflexivity]. intros _. exists s. left.
    + rewrite IH. split; intros [s Hs]; exists s.
      * right. exact Hs.
      * inversion Hs; subst. assumption.
Qed.

(** ** The constructor *)

Lemma init_unfold (ls : list label) (sfo : option SequenceField)
    (ns : string) :
  __init__ ls sfo ns =
  (logged ns,
   match sfo with
   | None => inl (AttributeError
       "'NoneType' object has no attribute 'sequence_length'")
   | Some sf =>
       if bool_decide (len ls = sequence_length sf)
       then inr {| _labels := ls; _sequence_field := Some sf;
                   _label_namespace := ns;
                   _indexed_labels :=
                     if forallb isinstance_int ls
                     then Some (as_ints ls) else None |}
       else inl (ConfigurationError
                   (mismatch_message (len ls) (sequence_length sf)))
   end).
Proof.
  unfold __init__, logged.
  destruct (endswith ns "tags" || endswith ns "labels");
    destruct sfo as [sf|]; cbn; try reflexivity;
    destruct (decide (len ls = sequence_length sf)) as [Heq|Hne].
  all: rewrite ?(bool_decide_eq_true_2 _ Heq), ?(bool_decide_eq_false_2 _ Hne).
  all: try rewrite (bool_decide_eq_false_2 (len ls ≠ _)) by tauto.
  all: try rewrite (bool_decide_eq_true_2 (len ls ≠ _)) by assumption.
  all: cbn; try reflexivity.
  all: destruct (forallb isinstance_int ls); reflexivity.
Qed.

Lemma init_inversion (ls : list label) (sfo : option SequenceField)
    (ns : string) (w : list string) (f : SequenceLabelField) :
  __init__ ls sfo ns = (w, inr f) →
  ∃ sf, sfo = Some sf ∧ len ls = sequence_length sf
        ∧ f = {| _labels := ls; _sequence_field := Some sf;
                 _label_namespace := ns;
                 _indexed_labels :=
                   if forallb isinstance_int ls
                   then Some (as_ints ls) else None |}.
Proof.
  rewrite init_unfold. destruct sfo as [sf|]; [|discriminate].
  case_bool_decide as Hlen; [|discriminate].
  intros [= _ <-]. exists sf. auto.
Qed.

Lemma init_consistent (ls : list label) (sfo : option SequenceField)
    (ns : string) (w : list string) (f : SequenceLabelField) :
  __init__ ls sfo ns = (w, inr f) → consistent f ∧ _labels f = ls.
Proof.
  intros (sf & -> & Hlen & ->)%init_inversion. split; [|reflexivity].
  split; simpl.
  - exists sf. auto.
  - destruct (forallb isinstance_int ls) eqn:Hall; [|discriminate].
    intros ids [= <-]. apply as_ints_length, Hall.
Qed.

(** ** Methods keep a field consistent and its labels in place *)

Lemma index_labels (v : Vocabulary) (f : SequenceLabelField) :
  _labels (index v f) = _labels f.
Proof. unfold index. destruct (_indexed_labels f); reflexivity. Qed.

Lemma index_consistent (v : Vocabulary) (f : SequenceLabelField) :
  consistent f → consistent (index v f).
Proof.
  unfold index. destruct (_indexed_labels f) eqn:Hi; [auto|].
  intros [Hsf _]. split; [exact Hsf|]. simpl.
  intros ids [= <-]. apply length_map.
Qed.

Lemma index_resolved (v : Vocabulary) (f : SequenceLabelField) :
  is_Some (_indexed_labels f) → index v f = f.
Proof. unfold index. intros [ids ->]. reflexivity. Qed.

Lemma index_is_Some (v : Vocabulary) (f : SequenceLabelField) :
  is_Some (_indexed_labels (index v f)).
Proof. unfold index. destruct (_indexed_labels f) eqn:Hi; simpl; eauto. Qed.

Lemma step_consistent (c : call) (st : SequenceLabelField * Counter) :
  consistent st.1 → consistent (step c st).1.1.
Proof.
  destruct st as [f cnt], c; simpl; auto using index_consistent.
Qed.

Lemma step_labels (c : call) (st : SequenceLabelField * Counter) :
  _labels (step c st).1.1 = _labels st.1.
Proof. destruct st as [f cnt], c; simpl; auto using index_labels. Qed.

Lemma run_consistent (calls : list call) (st : SequenceLabelField * Counter) :
  consistent st.1 → consistent (run calls st).1.
Proof.
  revert st. induction calls as [|c calls IH]; intros st H; simpl; [exact H|].
  apply IH, step_consistent, H.
Qed.

Lemma run_labels (calls : list call) (st : SequenceLabelField * Counter) :
  _labels (run calls st).1 = _labels st.1.
Proof.
  revert st. induction calls as [|c calls IH]; intros st; simpl; [reflexivity|].
  rewrite IH. apply step_labels.
Qed.

(** ** The frequency table *)

Lemma count_of_increment (c : Counter) (ns ns' : string) (l l' : label) :
  count_of (increment c ns l) ns' l' =
  count_of c ns' l' + (if decide (ns' = ns ∧ l' = l) then 1 else 0).
Proof.
  unfold count_of, increment.
  destruct (decide (ns' = ns)) as [->|Hns].
  - rewrite lookup_insert_eq. simpl.
    destruct (decide (l' = l)) as [->|Hl].
    + rewrite lookup_insert_eq, decide_True by auto. reflexivity.
    + rewrite lookup_insert_ne, decide_False by intuition congruence. lia.
  - rewrite lookup_insert_ne, decide_False by intuition congruence. lia.
Qed.

Lemma occurrences_cons (l x : label) (ls : list label) :
  occurrences l (x :: ls) = (if decide (x = l) then 1 else 0) + occurrences l ls.
Proof.
  unfold occurrences, len. rewrite filter_cons.
  destruct (decide (x = l)); simpl; lia.
Qed.

Lemma count_of_foldl_increment (ls : list label) (c : Counter)
    (ns ns' : string) (l : label) :
  count_of (foldl (λ c x, increment c ns x) c ls) ns' l =
  count_of c ns' l + (if decide (ns' = ns) then occurrences l ls else 0).
Proof.
  revert c. induction ls as [|x ls IH]; intros c; simpl.
  - destruct (decide (ns' = ns)); unfold occurrences, len; simpl; lia.
  - rewrite IH, count_of_increment, occurrences_cons.
    destruct (decide (ns' = ns)) as [->|Hns].
    + destruct (decide (x = l)) as [->|Hx].
      * rewrite decide_True by auto. lia.
      * rewrite decide_False by intuition congruence. lia.
    + rewrite decide_False by intuition congruence. lia.
Qed.

(** ** Padding *)

Lemma pad_sequence_to_length_enough (ids : list Z) (k : Z) :
  len ids ≤ k →
  pad_sequence_to_length (Some ids) k =
  inr (ids ++ replicate (Z.to_nat k - length ids) 0).
Proof.
  intros Hk. unfold pad_sequence_to_length, slice_to, len in *.
  destruct (Z.leb_spec 0 k) as [_|Hneg]; [|lia].
  rewrite take_ge by lia. do 3 f_equal. lia.
Qed.

Lemma pad_sequence_to_length_below (ids : list Z) (k : Z) :
  k ≤ len ids →
  pad_sequence_to_length (Some ids) k = inr (slice_to ids k).
Proof.
  intros Hk. unfold pad_sequence_to_length.
  replace (Z.to_nat (k - len (slice_to ids k))) with 0%nat.
  { simpl. by rewrite app_nil_r. }
  unfold slice_to, len in *.
  destruct (Z.leb_spec 0 k); rewrite length_take; lia.
Qed.

(** ** Conversion to an array *)

Lemma numpy_asarray_length (xs : list Z) :
  length (entries (numpy_asarray xs)) = length xs.
Proof.
  unfold numpy_asarray. simpl.
  destruct (result_type xs); try reflexivity. apply length_map.
Qed.

Lemma int_dtype_int64 (z : Z) : - 2 ^ 63 ≤ z < 2 ^ 63 → int_dtype z = int64.
Proof. intros Hz. unfold int_dtype. by rewrite bool_decide_eq_true_2. Qed.

Lemma foldl_promote_int64 (xs : list Z) :
  Forall (λ z, - 2 ^ 63 ≤ z < 2 ^ 63) xs →
  foldl (λ d y, promote_types d (int_dtype y)) int64 xs = int64.
Proof.
  induction 1 as [|x xs Hx _ IH]; simpl; [reflexivity|].
  by rewrite (int_dtype_int64 x Hx).
Qed.

Lemma numpy_asarray_int64 (xs : list Z) :
  Forall (λ z, - 2 ^ 63 ≤ z < 2 ^ 63) xs →
  entries (numpy_asarray xs) = xs
  ∧ (xs ≠ [] → array_dtype (numpy_asarray xs) = int64).
Proof.
  intros Hxs. unfold numpy_asarray. simpl.
  destruct Hxs as [|x xs Hx Hxs]; [by split|].
  simpl. rewrite (int_dtype_int64 x Hx), (foldl_promote_int64 xs Hxs).
  by split.
Qed.

(** ** The decimal rendering of a length contains no blank, so the two
    lengths can be read back from the mismatch message *)

Lemma has_blank_app (s t : string) :
  has_blank (s +:+ t) = has_blank s || has_blank t.
Proof.
  induction s as [|a s IH]; simpl; [reflexivity|].
  rewrite IH. apply orb_assoc.
Qed.

Lemma has_blank_pretty_N_go (x : N) (s : string) :
  has_blank (pretty_N_go x s) = has_blank s.
Proof.
  revert s. induction (N.lt_wf_0 x) as [x _ IH]; intros s.
  destruct (decide (x = 0)%N) as [->|Hx]; [reflexivity|].
  rewrite pretty_N_go_step by lia.
  rewrite IH by (apply N.div_lt; lia). simpl.
  unfold pretty_N_char. repeat case_match; reflexivity.
Qed.

Lemma has_blank_pretty_N (x : N) : has_blank (pretty x) = false.
Proof.
  unfold pretty, pretty_N. case_decide; [reflexivity|].
  apply has_blank_pretty_N_go.
Qed.

Lemma has_blank_pretty_Z (z : Z) : has_blank (pretty z) = false.
Proof.
  destruct z as [|p|p]; [reflexivity|..].
  - apply (has_blank_pretty_N (N.pos p)).
  - change (pretty (Z.neg p)) with ("-" +:+ pretty (N.pos p)).
    rewrite has_blank_app, has_blank_pretty_N. reflexivity.
Qed.

Lemma split_at_blank (s s' t t' : string) :
  has_blank s = false → has_blank s' = false →
  s +:+ String " " t = s' +:+ String " " t' → s = s' ∧ t = t'.
Proof.
  revert s'. induction s as [|a s IH]; intros [|a' s']; simpl.
  - intros _ _ [= ->]. auto.
  - intros _ [Ha _]%orb_false_elim [= <- _].
    rewrite bool_decide_eq_false in Ha. congruence.
  - intros [Ha _]%orb_false_elim _ [= -> _].
    rewrite bool_decide_eq_false in Ha. congruence.
  - intros [_ Hs]%orb_false_elim [_ Hs']%orb_false_elim [= <- Heq].
    destruct (IH s' Hs Hs' Heq) as [-> ->]. auto.
Qed.

Lemma mismatch_message_inj (a b a' b' : Z) :
  mismatch_message a b = mismatch_message a' b' → a = a' ∧ b = b'.
Proof.
  unfold mismatch_message. simpl. intros [= H].
  apply split_at_blank in H as [Ha [= Hb]];
    auto using has_blank_pretty_Z.
  split; eapply (inj pretty); eassumption.
Qed.

(** ** Worked examples *)

Example ner_construction :
  __init__ Examples.ner_labels (Some Examples.three_tokens) "labels" = ([], inr Examples.ner_field).
Proof. reflexivity. Qed.

Example int_construction :
  __init__ Examples.int_labels (Some Examples.three_tokens) "tags" = ([], inr Examples.int_field).
Proof. reflexivity. Qed.

Example mixed_construction :
  __init__ Examples.mixed_labels (Some Examples.three_tokens) "labels" = ([], inr Examples.mixed_field).
Proof. reflexivity. Qed.

Example ner_padding_lengths :
  get_padding_lengths Examples.ner_field = inr {[ "num_tokens" := 3 ]}.
Proof. reflexivity. Qed.

Example ner_as_array :
  as_array (index Examples.ner_vocab Examples.ner_field) {[ "num_tokens" := 5 ]}
  = inr {| array_dtype := int64; entries := [1; 2; 3; 0; 0] |}.
Proof. reflexivity. Qed.

Example mismatch_construction :
  __init__ [LStr "X"] (Some {| sequence_length := 2 |}) "labels"
  = ([], inl (ConfigurationError
                "Label length and sequence length don't match: 1 and 2")).
Proof. reflexivity. Qed.

Example unconventional_namespace :
  (__init__ Examples.ner_labels (Some Examples.three_tokens) "ner").1
  = [namespace_warning "ner"]
  ∧ (__init__ Examples.ner_labels (Some Examples.three_tokens) "ner").2
    = inr {| _labels := Examples.ner_labels; _sequence_field := Some Examples.three_tokens;
             _label_namespace := "ner"; _indexed_labels := None |}.
Proof. split; reflexivity. Qed.

Example ner_counts :
  count_of (count_vocab_items Examples.ner_field ∅) "labels" (LStr "O") = 1
  ∧ count_of (count_vocab_items Examples.ner_field
                (count_vocab_items Examples.ner_field ∅)) "labels" (LStr "O") = 2.
Proof. split; reflexivity. Qed.

(** ** The claims *)

(** What [empty_field] assigns after its constructor call would
    materialise to zeros only: the record it is after, were it reached. *)
Lemma as_array_of_empty (f : SequenceLabelField) (k : Z) :
  0 ≤ k →
  ∃ out, as_array (set_indexed_labels f (Some [])) {[ "num_tokens" := k ]}
         = inr out
         ∧ entries out = replicate (Z.to_nat k) 0.
Proof.
  intros Hk. unfold as_array. rewrite lookup_singleton_eq.
  cbn [set_indexed_labels _indexed_labels].
  rewrite pad_sequence_to_length_enough by (unfold len; simpl; lia).
  eexists. split; [reflexivity|].
  simpl. rewrite Nat.sub_0_r.
  apply numpy_asarray_int64, Forall_replicate. lia.
Qed.

(** C1.  On the code, [empty_field()] does not produce an instance: its
    constructor call [SequenceLabelField([], None)] evaluates
    [sequence_field.sequence_length()] on [None] in the length check, so
    the call raises [AttributeError], whatever instance it is called on,
    and the assignment [_indexed_labels = []] is never reached. *)
Theorem empty_field_raises (self : SequenceLabelField) :
  empty_field self
  = ([], inl (AttributeError
                "'NoneType' object has no attribute 'sequence_length'")).
Proof. reflexivity. Qed.

(** C2.  For every label list [ls] and every companion reporting length
    [M], construction returns an instance exactly when [len ls = M];
    otherwise it raises [ConfigurationError] with the message
    "Label length and sequence length don't match: <len ls> and <M>",
    from which both lengths can be read back. *)
Theorem construction_iff_lengths_agree (ls : list label)
    (sf : SequenceField) (ns : string) :
  ((∃ f, (__init__ ls (Some sf) ns).2 = inr f)
     ↔ len ls = sequence_length sf)
  ∧ (len ls ≠ sequence_length sf →
     (__init__ ls (Some sf) ns).2
     = inl (ConfigurationError
         ("Label length and sequence length don't match: "
          +:+ pretty (len ls) +:+ " and " +:+ pretty (sequence_length sf)))
     ∧ ∀ (ls' : list label) (sf' : SequenceField) (ns' : string),
         (__init__ ls' (Some sf') ns').2 = (__init__ ls (Some sf) ns).2 →
         len ls' = len ls ∧ sequence_length sf' = sequence_length sf).
Proof.
  rewrite init_unfold. simpl. split.
  - case_bool_decide as Hlen; split; eauto; try tauto.
    intros [f [=]].
  - intros Hne. rewrite bool_decide_eq_false_2 by assumption.
    split; [reflexivity|].
    intros ls' sf' ns'. rewrite init_unfold. simpl.
    case_bool_decide; [discriminate|].
    intros Hmsg. apply mismatch_message_inj. congruence.
Qed.

Lemma construction_iff_lengths_agree_witness :
  (__init__ [LStr "X"] (Some {| sequence_length := 2 |}) "labels").2
  = inl (ConfigurationError
           "Label length and sequence length don't match: 1 and 2").
Proof.
  apply (construction_iff_lengths_agree
           [LStr "X"] {| sequence_length := 2 |} "labels").
  unfold len. simpl. lia.
Defined.

(** The claim C3 as stated, that [as_array] with a "num_tokens" value
    below the number of labels raises and returns no shortened array,
    fails: on the indexed field of three labels with ids 1, 2, 3 the
    value 2 gives the array of the first two ids. *)
Lemma as_array_short_padding_returns :
  __init__ Examples.ner_labels (Some Examples.three_tokens) "labels"
  = ([], inr Examples.ner_field)
  ∧ 2 < len Examples.ner_labels
  ∧ as_array (run [Index Examples.ner_vocab] (Examples.ner_field, ∅)).1
             {[ "num_tokens" := 2 ]}
    = inr {| array_dtype := int64; entries := [1; 2] |}.
Proof. repeat split. Qed.

(** C3, amended.  For a field built from [N] labels and indexed, in any
    state its methods can bring it to, [as_array] with a "num_tokens"
    value [K < N] does not raise: no length is checked, and the call
    returns an array of [K] entries where [K] is not negative and of
    [max 0 (N + K)] where it is, fewer than [N] unless [N] is 0.  Where every resolved id
    fits a signed 64-bit integer the entries are the first resolved ids,
    in order; the labels after them are dropped. *)
Theorem as_array_truncates (ls : list label)
    (sfo : option SequenceField) (ns : string) (w : list string)
    (f0 : SequenceLabelField) (calls : list call) (c : Counter)
    (ids : list Z) (pl : gmap string Z) (K : Z) :
  __init__ ls sfo ns = (w, inr f0) →
  _indexed_labels (run calls (f0, c)).1 = Some ids →
  pl !! "num_tokens" = Some K →
  K < len ls →
  ∃ out, as_array (run calls (f0, c)).1 pl = inr out
         ∧ len ids = len ls
         ∧ len (entries out)
           = (if 0 <=? K then K else Z.max 0 (len ls + K))
         ∧ (0 < len ls → len (entries out) < len ls)
         ∧ (Forall (λ z, - 2 ^ 63 ≤ z < 2 ^ 63) ids →
            entries out = take (length (entries out)) ids).
Proof.
  intros [Hc Hl]%init_consistent Hids Hpl HK.
  apply (run_consistent calls (f0, c)) in Hc as [_ Hc].
  specialize (Hc ids Hids). rewrite run_labels in Hc. simpl in Hc.
  assert (len ids = len ls) as Hlen by (unfold len; congruence).
  unfold as_array. rewrite Hpl, Hids.
  rewrite pad_sequence_to_length_below by lia.
  eexists. split; [reflexivity|]. split; [exact Hlen|].
  assert (len (slice_to ids K)
          = if 0 <=? K then K else Z.max 0 (len ls + K)) as Hslice.
  { unfold slice_to, len in *.
    destruct (Z.leb_spec 0 K); rewrite length_take; lia. }
  assert (len (entries (numpy_asarray (slice_to ids K)))
          = len (slice_to ids K)) as Hent.
  { unfold len. by rewrite numpy_asarray_length. }
  rewrite !Hent, Hslice. split; [reflexivity|].
  split; [destruct (Z.leb_spec 0 K); lia|].
  intros Hfit. rewrite numpy_asarray_length.
  assert (take (length (slice_to ids K)) ids = slice_to ids K) as ->.
  { unfold slice_to, len in *.
    destruct (Z.leb_spec 0 K); rewrite length_take;
      f_equal; lia. }
  apply numpy_asarray_int64. unfold slice_to.
  destruct (0 <=? K); by apply Forall_take.
Qed.

Lemma as_array_truncates_witness :
  ∃ out, as_array (run [Index Examples.ner_vocab] (Examples.ner_field, ∅)).1
                  {[ "num_tokens" := 2 ]} = inr out
         ∧ len [1; 2; 3] = len Examples.ner_labels
         ∧ len (entries out)
           = (if 0 <=? 2 then 2 else Z.max 0 (len Examples.ner_labels + 2))
         ∧ (0 < len Examples.ner_labels
            → len (entries out) < len Examples.ner_labels)
         ∧ (Forall (λ z, - 2 ^ 63 ≤ z < 2 ^ 63) [1; 2; 3] →
            entries out = take (length (entries out)) [1; 2; 3]).
Proof.
  apply (as_array_truncates Examples.ner_labels
           (Some Examples.three_tokens) "labels" []).
  - reflexivity.
  - reflexivity.
  - reflexivity.
  - unfold len. simpl. lia.
Defined.

(** The claim C4 as stated, that the first [N] entries of the array are
    the resolved ids, fails where an id does not fit a signed 64-bit
    integer: the one integer label [2 ^ 63 + 1] is pre-resolved, padded
    to length 2 with the int 0, and the conversion to an array makes both
    doubles, the first of them [2 ^ 63]. *)
Lemma as_array_rounds_large_id :
  __init__ [LInt (2 ^ 63 + 1)] (Some {| sequence_length := 1 |}) "labels"
  = ([], inr {| _labels := [LInt (2 ^ 63 + 1)];
                _sequence_field := Some {| sequence_length := 1 |};
                _label_namespace := "labels";
                _indexed_labels := Some [2 ^ 63 + 1] |})
  ∧ as_array {| _labels := [LInt (2 ^ 63 + 1)];
                _sequence_field := Some {| sequence_length := 1 |};
                _label_namespace := "labels";
                _indexed_labels := Some [2 ^ 63 + 1] |}
             {[ "num_tokens" := 2 ]}
    = inr {| array_dtype := float64; entries := [2 ^ 63; 0] |}
  ∧ take 1 [2 ^ 63; 0] ≠ [2 ^ 63 + 1].
Proof. repeat split. discriminate. Qed.

(** C4, amended.  For an indexed field with resolved ids of length [N],
    each of which fits a signed 64-bit integer, and [K >= N], [as_array]
    with "num_tokens" [K] returns an array of exactly [K] integers: the
    resolved ids in order, then [K - N] zeros. *)
Theorem as_array_pads_with_zeros (ls : list label)
    (sfo : option SequenceField) (ns : string) (w : list string)
    (f0 : SequenceLabelField) (calls : list call) (c : Counter)
    (ids : list Z) (pl : gmap string Z) (K : Z) :
  __init__ ls sfo ns = (w, inr f0) →
  _indexed_labels (run calls (f0, c)).1 = Some ids →
  Forall (λ z, - 2 ^ 63 ≤ z < 2 ^ 63) ids →
  pl !! "num_tokens" = Some K →
  len ids ≤ K →
  ∃ out, as_array (run calls (f0, c)).1 pl = inr out
         ∧ len ids = len ls
         ∧ len (entries out) = K
         ∧ take (length ids) (entries out) = ids
         ∧ drop (length ids) (entries out)
           = replicate (Z.to_nat K - length ids) 0
         ∧ (0 < K → array_dtype out = int64).
Proof.
  intros [Hc Hl]%init_consistent Hids Hfit Hpl HK.
  apply (run_consistent calls (f0, c)) in Hc as [_ Hc].
  specialize (Hc ids Hids). rewrite run_labels in Hc. simpl in Hc.
  unfold as_array. rewrite Hpl, Hids.
  rewrite pad_sequence_to_length_enough by assumption.
  eexists. split; [reflexivity|].
  destruct (numpy_asarray_int64
              (ids ++ replicate (Z.to_nat K - length ids) 0))
    as [-> Hdtype].
  { apply Forall_app. split; [exact Hfit|]. apply Forall_replicate. lia. }
  repeat split.
  - unfold len. congruence.
  - unfold len in *. rewrite length_app, length_replicate. lia.
  - apply take_app_length.
  - apply drop_app_length.
  - intros HK0. apply Hdtype. intros Hnil%(f_equal length).
    rewrite length_app, length_replicate in Hnil. simpl in Hnil.
    unfold len in HK. lia.
Qed.

Lemma as_array_pads_with_zeros_witness :
  ∃ out, as_array (run [Index Examples.ner_vocab] (Examples.ner_field, ∅)).1
                  {[ "num_tokens" := 5 ]} = inr out
         ∧ len [1; 2; 3] = len Examples.ner_labels
         ∧ len (entries out) = 5
         ∧ take 3 (entries out) = [1; 2; 3]
         ∧ drop 3 (entries out) = replicate 2 0
         ∧ (0 < 5 → array_dtype out = int64).
Proof.
  apply (as_array_pads_with_zeros Examples.ner_labels
           (Some Examples.three_tokens) "labels" []).
  - reflexivity.
  - reflexivity.
  - repeat constructor; lia.
  - reflexivity.
  - unfold len. simpl. lia.
Defined.

(** C5.  If every raw label is an integer, then right after construction
    the resolved ids are the raw labels, and [count_vocab_items] returns
    the counter it was given. *)
Theorem integer_labels_preresolved (ls : list label)
    (sfo : option SequenceField) (ns : string) (w : list string)
    (f : SequenceLabelField) :
  Forall (λ x, ∃ z, x = LInt z) ls →
  __init__ ls sfo ns = (w, inr f) →
  (∃ ids, _indexed_labels f = Some ids ∧ LInt <$> ids = labels f
          ∧ labels f = ls)
  ∧ ∀ c : Counter, count_vocab_items f c = c.
Proof.
  intros Hint (sf & -> & Hlen & ->)%init_inversion.
  assert (forallb isinstance_int ls = true) as Hall.
  { apply forallb_forall. intros x Hx.
    rewrite Forall_forall in Hint.
    destruct (Hint x) as [z ->]; [by apply list_elem_of_In|reflexivity]. }
  unfold count_vocab_items, labels. simpl. rewrite Hall. split; [|reflexivity].
  exists (as_ints ls). auto using as_ints_all_int.
Qed.

Lemma integer_labels_preresolved_witness :
  (∃ ids, _indexed_labels Examples.int_field = Some ids
          ∧ LInt <$> ids = labels Examples.int_field
          ∧ labels Examples.int_field = Examples.int_labels)
  ∧ ∀ c : Counter, count_vocab_items Examples.int_field c = c.
Proof.
  apply (integer_labels_preresolved Examples.int_labels
           (Some Examples.three_tokens) "tags" []).
  - repeat constructor; eauto.
  - reflexivity.
Defined.

(** C6.  For a field of [N] labels in any state and any vocabulary,
    after [index] the resolved ids are present and [N] long, and every
    further [index] with that vocabulary changes nothing. *)
Theorem index_idempotent (ls : list label) (sfo : option SequenceField)
    (ns : string) (w : list string) (f0 : SequenceLabelField)
    (calls : list call) (c : Counter) (v : Vocabulary) (n : nat) :
  __init__ ls sfo ns = (w, inr f0) →
  (∃ ids, _indexed_labels (index v (run calls (f0, c)).1) = Some ids
          ∧ len ids = len ls)
  ∧ index v (index v (run calls (f0, c)).1) = index v (run calls (f0, c)).1
  ∧ Nat.iter n (index v) (index v (run calls (f0, c)).1)
    = index v (run calls (f0, c)).1.
Proof.
  intros [Hc Hl]%init_consistent.
  apply (run_consistent calls (f0, c)), (index_consistent v) in Hc as [_ Hc].
  destruct (index_is_Some v (run calls (f0, c)).1) as [ids Hids].
  split; [|split].
  - exists ids. split; [exact Hids|].
    specialize (Hc ids Hids).
    rewrite index_labels, run_labels in Hc. simpl in Hc.
    unfold len. congruence.
  - apply index_resolved. eauto.
  - induction n as [|n IH]; [reflexivity|]. simpl. rewrite IH.
    apply index_resolved. eauto.
Qed.

Lemma index_idempotent_witness :
  (∃ ids, _indexed_labels (index Examples.ner_vocab Examples.ner_field)
          = Some ids ∧ len ids = len Examples.ner_labels)
  ∧ index Examples.ner_vocab (index Examples.ner_vocab Examples.ner_field)
    = index Examples.ner_vocab Examples.ner_field
  ∧ Nat.iter 2 (index Examples.ner_vocab)
      (index Examples.ner_vocab Examples.ner_field)
    = index Examples.ner_vocab Examples.ner_field.
Proof.
  apply (index_idempotent Examples.ner_labels (Some Examples.three_tokens)
           "labels" [] Examples.ner_field [] ∅ Examples.ner_vocab 2).
  reflexivity.
Defined.

(** C7.  A non-empty list of string labels leaves the resolved ids absent
    at construction, and while they are absent [as_array] raises for
    every padding-lengths mapping: where the mapping has "num_tokens" the
    error is the absent-value error.  No array is returned. *)
Theorem as_array_before_index (ls : list label)
    (sfo : option SequenceField) (ns : string) (w : list string)
    (f0 : SequenceLabelField) (calls : list call) (c : Counter)
    (pl : gmap string Z) :
  __init__ ls sfo ns = (w, inr f0) →
  Forall (λ x, ∃ s, x = LStr s) ls →
  _indexed_labels (run calls (f0, c)).1 = None →
  (ls ≠ [] → _indexed_labels f0 = None)
  ∧ (∃ e, as_array (run calls (f0, c)).1 pl = inl e)
  ∧ (is_Some (pl !! "num_tokens") →
     as_array (run calls (f0, c)).1 pl = inl UnresolvedMaterializationError).
Proof.
  intros (sf & -> & Hlen & ->)%init_inversion Hstr Hnone. split.
  - destruct ls as [|x ls]; [congruence|]. intros _. simpl.
    apply Forall_cons in Hstr as [[s ->] _]. reflexivity.
  - unfold as_array. rewrite Hnone.
    destruct (pl !! "num_tokens") as [k|]; simpl.
    + eauto.
    + split; [eauto|]. intros [k [=]].
Qed.

Lemma as_array_before_index_witness :
  (Examples.ner_labels ≠ [] → _indexed_labels Examples.ner_field = None)
  ∧ (∃ e, as_array Examples.ner_field {[ "num_tokens" := 5 ]} = inl e)
  ∧ (is_Some (({[ "num_tokens" := 5 ]} : gmap string Z) !! "num_tokens") →
     as_array Examples.ner_field {[ "num_tokens" := 5 ]}
     = inl UnresolvedMaterializationError).
Proof.
  apply (as_array_before_index Examples.ner_labels
           (Some Examples.three_tokens) "labels" []
           Examples.ner_field [CountVocabItems] ∅).
  - reflexivity.
  - repeat constructor; eauto.
  - reflexivity.
Defined.

(** C8.  For a field built from [N] labels, in any state its methods can
    bring it to, [get_padding_lengths()] returns the one-entry mapping
    {"num_tokens": N}; it takes no other argument. *)
Theorem get_padding_lengths_own_length (ls : list label)
    (sfo : option SequenceField) (ns : string) (w : list string)
    (f0 : SequenceLabelField) (calls : list call) (c : Counter) :
  __init__ ls sfo ns = (w, inr f0) →
  get_padding_lengths (run calls (f0, c)).1
  = inr {[ "num_tokens" := len ls ]}.
Proof.
  intros [Hc Hl]%init_consistent.
  apply (run_consistent calls (f0, c)) in Hc as [(sf & Hsf & Hlen) _].
  rewrite run_labels in Hlen. simpl in Hlen.
  unfold get_padding_lengths. rewrite Hsf. congruence.
Qed.

Lemma get_padding_lengths_own_length_witness :
  get_padding_lengths
    (run [Index Examples.ner_vocab; CountVocabItems]
         (Examples.ner_field, ∅)).1
  = inr {[ "num_tokens" := 3 ]}.
Proof.
  apply (get_padding_lengths_own_length Examples.ner_labels
           (Some Examples.three_tokens) "labels" []).
  reflexivity.
Defined.

(** C9.  The raw labels given to the constructor stay as they are under
    every later call: [count_vocab_items] leaves the field as it was,
    each of the other methods leaves [_labels] as it was, and [labels()]
    returns the constructor's label list after any calls. *)
Theorem labels_never_modified (ls : list label)
    (sfo : option SequenceField) (ns : string) (w : list string)
    (f0 : SequenceLabelField) (calls : list call) (c : Counter) :
  __init__ ls sfo ns = (w, inr f0) →
  labels (run calls (f0, c)).1 = ls
  ∧ (∀ (f : SequenceLabelField) (cnt : Counter),
       (step CountVocabItems (f, cnt)).1.1 = f)
  ∧ (∀ (k : call) (f : SequenceLabelField) (cnt : Counter),
       _labels (step k (f, cnt)).1.1 = _labels f).
Proof.
  intros [_ Hl]%init_consistent. split; [|split].
  - unfold labels. rewrite run_labels. exact Hl.
  - reflexivity.
  - intros k f cnt. apply (step_labels k (f, cnt)).
Qed.

Lemma labels_never_modified_witness :
  labels (run [CountVocabItems; Index Examples.ner_vocab;
               GetPaddingLengths; AsArray {[ "num_tokens" := 5 ]}; Labels]
              (Examples.ner_field, ∅)).1
  = Examples.ner_labels.
Proof.
  apply (labels_never_modified Examples.ner_labels
           (Some Examples.three_tokens) "labels" []).
  reflexivity.
Defined.

(** C10.  The constructor pre-resolves exactly when every label is an
    integer: an empty list is pre-resolved to [[]]; a list with at least
    one non-integer label is left unresolved, [count_vocab_items] then
    adds to the count of every label, integers included, its number of
    occurrences, and [index] maps every label through the vocabulary. *)
Theorem preresolution_decision (ls : list label)
    (sfo : option SequenceField) (ns : string) (w : list string)
    (f : SequenceLabelField) :
  __init__ ls sfo ns = (w, inr f) →
  (is_Some (_indexed_labels f) ↔ Forall (λ x, ∃ z, x = LInt z) ls)
  ∧ (ls = [] → _indexed_labels f = Some [])
  ∧ ((∃ s, LStr s ∈ ls) →
     _indexed_labels f = None
     ∧ (∀ (c : Counter) (ns' : string) (l : label),
          count_of (count_vocab_items f c) ns' l
          = count_of c ns' l
            + (if decide (ns' = ns) then occurrences l ls else 0))
     ∧ (∀ v : Vocabulary,
          _indexed_labels (index v f)
          = Some (map (λ l, get_token_index v l ns) ls))).
Proof.
  intros (sf & -> & Hlen & ->)%init_inversion. simpl.
  split; [|split].
  - destruct (forallb isinstance_int ls) eqn:Hall.
    + split; [intros _|eauto].
      apply Forall_forall. intros x Hx%list_elem_of_In.
      rewrite forallb_forall in Hall. specialize (Hall x Hx).
      destruct x as [s|z]; [discriminate|eauto].
    + apply forallb_isinstance_int_false in Hall as [s Hs].
      split; [intros [? [=]]|].
      intros Hint. rewrite Forall_forall in Hint.
      destruct (Hint _ Hs) as [z [=]].
  - intros ->. reflexivity.
  - intros Hs%forallb_isinstance_int_false.
    unfold count_vocab_items, index. simpl. rewrite Hs. simpl.
    split; [reflexivity|]. split; [|reflexivity].
    intros c ns' l. apply count_of_foldl_increment.
Qed.

Lemma preresolution_decision_witness :
  _indexed_labels Examples.mixed_field = None
  ∧ (∀ (c : Counter) (ns' : string) (l : label),
       count_of (count_vocab_items Examples.mixed_field c) ns' l
       = count_of c ns' l
         + (if decide (ns' = "labels")
            then occurrences l Examples.mixed_labels else 0))
  ∧ (∀ v : Vocabulary,
       _indexed_labels (index v Examples.mixed_field)
       = Some (map (λ l, get_token_index v l "labels")
                   Examples.mixed_labels)).
Proof.
  apply (preresolution_decision Examples.mixed_labels
           (Some Examples.three_tokens) "labels" [] Examples.mixed_field).
  - reflexivity.
  - exists "O". unfold Examples.mixed_labels. set_solver.
Defined.

(** * Further properties of the methods *)

(** ** [str.endswith] is the suffix test *)

Lemma string_length_app (s t : string) :
  String.length (s +:+ t) = (String.length s + String.length t)%nat.
Proof. induction s as [|a s IH]; simpl; [reflexivity|]. by rewrite IH. Qed.

Lemma substring_whole (s : string) :
  String.substring 0 (String.length s) s = s.
Proof. induction s as [|a s IH]; simpl; [reflexivity|]. by rewrite IH. Qed.

Lemma substring_after_prefix (p s : string) (m : nat) :
  String.substring (String.length p) m (p +:+ s) = String.substring 0 m s.
Proof. induction p as [|a p IH]; simpl; [reflexivity|]. exact IH. Qed.

Lemma substring_split (s : string) (m : nat) :
  (m ≤ String.length s)%nat →
  s = String.substring 0 m s
      +:+ String.substring m (String.length s - m) s.
Proof.
  revert m. induction s as [|a s IH]; intros [|m] Hm; simpl in *;
    try reflexivity; try lia.
  - by rewrite substring_whole.
  - transitivity
      (String a (String.substring 0 m s
                 +:+ String.substring m (String.length s - m) s));
      [|reflexivity].
    f_equal. apply IH. lia.
Qed.

Lemma endswith_spec (s suffix : string) :
  endswith s suffix = true ↔ ∃ p, s = p +:+ suffix.
Proof.
  unfold endswith. split.
  - remember (String.length suffix) as k eqn:Hk.
    destruct (Nat.leb_spec k (String.length s)) as [Hle|_]; [|discriminate].
    intros Hsub%bool_decide_eq_true.
    exists (String.substring 0 (String.length s - k) s).
    rewrite <- Hsub.
    etrans; [apply (substring_split s (String.length s - k)); lia|].
    do 2 f_equal. lia.
  - intros [p ->]. rewrite string_length_app.
    destruct (Nat.leb_spec (String.length suffix)
                (String.length p + String.length suffix)) as [_|Hlt]; [|lia].
    apply bool_decide_eq_true.
    replace (String.length p + String.length suffix - String.length suffix)%nat
      with (String.length p) by lia.
    rewrite substring_after_prefix. apply substring_whole.
Qed.

(** X1.  What the constructor logs depends on the namespace alone: nothing
    when the namespace ends with "tags" or with "labels", and otherwise
    the one namespace warning, whatever the labels and the companion are
    and whether or not the construction then raises. *)
Theorem namespace_warning_iff (ls : list label)
    (sfo : option SequenceField) (ns : string) :
  ((∃ p, ns = p +:+ "tags" ∨ ns = p +:+ "labels") →
   (__init__ ls sfo ns).1 = [])
  ∧ (¬ (∃ p, ns = p +:+ "tags" ∨ ns = p +:+ "labels") →
     (__init__ ls sfo ns).1 = [namespace_warning ns]).
Proof.
  rewrite init_unfold. unfold logged. simpl.
  destruct (endswith ns "tags") eqn:Ht; simpl.
  { apply endswith_spec in Ht as [p Hp].
    split; [reflexivity|]. intros []. eauto. }
  destruct (endswith ns "labels") eqn:Hl.
  { apply endswith_spec in Hl as [p Hp].
    split; [reflexivity|]. intros []. eauto. }
  split; [|reflexivity].
  intros [p [Hp|Hp]].
  - assert (endswith ns "tags" = true) by (apply endswith_spec; eauto).
    congruence.
  - assert (endswith ns "labels" = true) by (apply endswith_spec; eauto).
    congruence.
Qed.

Lemma namespace_warning_iff_witness :
  (__init__ [LStr "X"] None "pos_tags").1 = [].
Proof.
  apply (namespace_warning_iff [LStr "X"] None "pos_tags").
  exists "pos_". left. reflexivity.
Defined.

(** X2.  Construction with the companion [None] raises [AttributeError]
    for every label list and namespace, the empty list included: the
    length check calls [sequence_length()] on it before anything else is
    decided. *)
Theorem construction_without_companion (ls : list label) (ns : string) :
  (__init__ ls None ns).2
  = inl (AttributeError
           "'NoneType' object has no attribute 'sequence_length'").
Proof. rewrite init_unfold. reflexivity. Qed.

(** ** Once resolved, nothing moves *)

Lemma step_resolved (k : call) (f : SequenceLabelField) (c : Counter) :
  is_Some (_indexed_labels f) → (step k (f, c)).1 = (f, c).
Proof.
  intros Hres. destruct k; simpl; try reflexivity.
  - unfold count_vocab_items. destruct Hres as [ids ->]. reflexivity.
  - by rewrite index_resolved.
Qed.

Lemma run_resolved (calls : list call) (f : SequenceLabelField)
    (c : Counter) :
  is_Some (_indexed_labels f) → run calls (f, c) = (f, c).
Proof.
  intros Hres. induction calls as [|k calls IH]; [reflexivity|].
  cbn [run]. by rewrite step_resolved.
Qed.

(** X3.  A field whose resolved ids are present is frozen: no sequence of
    calls changes the field, and none changes the counter, so a
    [count_vocab_items] that comes after [index] counts nothing. *)
Theorem resolved_is_terminal (calls : list call) (f : SequenceLabelField)
    (c : Counter) :
  is_Some (_indexed_labels f) → run calls (f, c) = (f, c).
Proof. apply run_resolved. Qed.

Lemma resolved_is_terminal_witness :
  run [CountVocabItems; Index Examples.ner_vocab; CountVocabItems]
      (index Examples.ner_vocab Examples.ner_field, ∅)
  = (index Examples.ner_vocab Examples.ner_field, ∅).
Proof.
  apply (resolved_is_terminal
           [CountVocabItems; Index Examples.ner_vocab; CountVocabItems]).
  simpl. eauto.
Defined.

(** X4.  The first [index] wins: after any calls the field is the one the
    first [Index] of the list produced, and it is the field as it was when
    the list has no [Index].  A later [index], with whatever vocabulary,
    resolves nothing again. *)
Theorem first_index_wins (calls : list call) (f : SequenceLabelField)
    (c : Counter) :
  (run calls (f, c)).1
  = match first_index calls with
    | Some v => index v f
    | None => f
    end.
Proof.
  revert c. induction calls as [|k calls IH]; intros c; [reflexivity|].
  destruct k; simpl; try apply IH.
  rewrite run_resolved by apply index_is_Some. reflexivity.
Qed.

(** X5.  On a field whose resolved ids are absent, a list of calls adds to
    the count of a label, in the field's namespace, its number of
    occurrences once for every [count_vocab_items] that comes before the
    first [index]; calls after the first [index] add nothing, and no
    other namespace's count changes. *)
Theorem counter_after_calls (calls : list call) (f : SequenceLabelField)
    (c : Counter) (ns : string) (l : label) :
  _indexed_labels f = None →
  count_of (run calls (f, c)).2 ns l
  = count_of c ns l
    + (if decide (ns = _label_namespace f)
       then Z.of_nat (counts_before_index calls) * occurrences l (_labels f)
       else 0).
Proof.
  intros Hnone. revert c.
  induction calls as [|k calls IH]; intros c.
  { simpl. case_decide; lia. }
  destruct k; simpl run; simpl counts_before_index; try apply IH.
  - rewrite IH. unfold count_vocab_items. rewrite Hnone.
    rewrite count_of_foldl_increment. case_decide; lia.
  - rewrite run_resolved by apply index_is_Some. simpl. case_decide; lia.
Qed.

Lemma counter_after_calls_witness :
  count_of (run [CountVocabItems; Labels; CountVocabItems;
                 Index Examples.ner_vocab; CountVocabItems]
                (Examples.mixed_field, ∅)).2 "labels" (LInt 7)
  = count_of ∅ "labels" (LInt 7)
    + (if decide ("labels" = _label_namespace Examples.mixed_field)
       then Z.of_nat
              (counts_before_index
                 [CountVocabItems; Labels; CountVocabItems;
                  Index Examples.ner_vocab; CountVocabItems])
            * occurrences (LInt 7) (_labels Examples.mixed_field)
       else 0).
Proof.
  apply (counter_after_calls
           [CountVocabItems; Labels; CountVocabItems;
            Index Examples.ner_vocab; CountVocabItems]
           Examples.mixed_field ∅ "labels" (LInt 7)).
  reflexivity.
Defined.

(** ** What [count_vocab_items] leaves alone *)

Lemma entry_increment_ne (c : Counter) (ns ns' : string) (l l' : label) :
  ns' ≠ ns ∨ l' ≠ l → entry (increment c ns l) ns' l' = entry c ns' l'.
Proof.
  unfold entry, increment. intros Hne.
  destruct (decide (ns' = ns)) as [->|Hns].
  - destruct Hne as [?|Hl]; [done|].
    rewrite lookup_insert_eq. simpl. rewrite lookup_insert_ne by done.
    destruct (c !! ns); reflexivity.
  - by rewrite lookup_insert_ne.
Qed.

Lemma lookup_increment_ne (c : Counter) (ns ns' : string) (l : label) :
  ns' ≠ ns → increment c ns l !! ns' = c !! ns'.
Proof. intros Hne. unfold increment. by rewrite lookup_insert_ne. Qed.

(** X6.  [count_vocab_items] writes only to entries of the field's own
    namespace for labels of the field: the table of every other namespace
    is as it was (none is created), and in the field's namespace a label
    that is not one of the field's has its entry as it was (none is
    created for it). *)
Theorem count_vocab_items_frame (f : SequenceLabelField) (c : Counter) :
  (∀ ns, ns ≠ _label_namespace f → count_vocab_items f c !! ns = c !! ns)
  ∧ (∀ ns l, l ∉ _labels f →
       entry (count_vocab_items f c) ns l = entry c ns l).
Proof.
  unfold count_vocab_items.
  destruct (_indexed_labels f); [split; reflexivity|].
  generalize (_label_namespace f) as fns. intros fns.
  revert c. induction (_labels f) as [|x ls IH]; intros c;
    [split; reflexivity|].
  simpl. destruct (IH (increment c fns x)) as [IH1 IH2]. split.
  - intros ns Hns. rewrite IH1 by done. by apply lookup_increment_ne.
  - intros ns l Hl. apply not_elem_of_cons in Hl as [Hx Hl].
    rewrite IH2 by done. apply entry_increment_ne. auto.
Qed.

Lemma count_vocab_items_frame_witness :
  entry (count_vocab_items Examples.ner_field ∅) "labels" (LStr "B-LOC")
  = entry ∅ "labels" (LStr "B-LOC").
Proof.
  apply (count_vocab_items_frame Examples.ner_field ∅).
  unfold Examples.ner_field, Examples.ner_labels. simpl.
  intros Hin. repeat (apply elem_of_cons in Hin as [[=]|Hin]).
  inversion Hin.
Defined.

(** ** Counting does not depend on the order of the labels *)

Lemma increment_comm (c : Counter) (ns : string) (a b : label) :
  increment (increment c ns a) ns b = increment (increment c ns b) ns a.
Proof.
  unfold increment. rewrite !lookup_insert_eq. simpl.
  rewrite !insert_insert_eq. f_equal.
  destruct (decide (a = b)) as [->|Hab]; [reflexivity|].
  rewrite !lookup_insert_ne by done.
  by apply insert_insert_ne.
Qed.

Lemma foldl_increment_perm (ls ls' : list label) (c : Counter)
    (ns : string) :
  ls ≡ₚ ls' →
  foldl (λ c x, increment c ns x) c ls
  = foldl (λ c x, increment c ns x) c ls'.
Proof.
  intros Hperm. revert c.
  induction Hperm as [|x ls ls' _ IH|x y ls|ls ls' ls'' _ IH1 _ IH2];
    intros c; simpl.
  - reflexivity.
  - apply IH.
  - by rewrite increment_comm.
  - by rewrite IH1.
Qed.

Lemma forallb_perm {A : Type} (p : A → bool) (ls ls' : list A) :
  ls ≡ₚ ls' → forallb p ls = forallb p ls'.
Proof.
  induction 1 as [|x ls ls' _ IH|x y ls|ls ls' ls'' _ IH1 _ IH2]; simpl.
  - reflexivity.
  - by rewrite IH.
  - by destruct (p x), (p y).
  - by rewrite IH1.
Qed.

(** X7.  Two fields constructed in the same namespace from label lists
    that are permutations of one another leave the same counter behind:
    [count_vocab_items] depends on which labels occur how often, not on
    their order. *)
Theorem count_vocab_items_permutation (ls ls' : list label)
    (sfo sfo' : option SequenceField) (ns : string) (w w' : list string)
    (f f' : SequenceLabelField) (c : Counter) :
  __init__ ls sfo ns = (w, inr f) →
  __init__ ls' sfo' ns = (w', inr f') →
  ls ≡ₚ ls' →
  count_vocab_items f c = count_vocab_items f' c.
Proof.
  intros (sf & -> & _ & ->)%init_inversion
         (sf' & -> & _ & ->)%init_inversion Hperm.
  unfold count_vocab_items. simpl.
  rewrite <- (forallb_perm isinstance_int ls ls' Hperm).
  destruct (forallb isinstance_int ls); [reflexivity|].
  by apply foldl_increment_perm.
Qed.

Lemma count_vocab_items_permutation_witness :
  count_vocab_items Examples.mixed_field ∅
  = count_vocab_items
      {| _labels := [LStr "O"; LInt 7; LInt 7];
         _sequence_field := Some Examples.three_tokens;
         _label_namespace := "labels"; _indexed_labels := None |} ∅.
Proof.
  apply (count_vocab_items_permutation
           Examples.mixed_labels [LStr "O"; LInt 7; LInt 7]
           (Some Examples.three_tokens) (Some Examples.three_tokens)
           "labels" [] []).
  - reflexivity.
  - reflexivity.
  - apply perm_swap.
Defined.

(** ** What [index] and [as_array] read *)

(** X8.  [index] consults the vocabulary only for the field's own labels
    in the field's own namespace: two vocabularies that agree there leave
    the same field behind, however they differ elsewhere. *)
Theorem index_own_namespace_only (v1 v2 : Vocabulary)
    (f : SequenceLabelField) :
  (∀ l, l ∈ _labels f →
        get_token_index v1 l (_label_namespace f)
        = get_token_index v2 l (_label_namespace f)) →
  index v1 f = index v2 f.
Proof.
  intros Hagree. unfold index.
  destruct (_indexed_labels f); [reflexivity|].
  do 2 f_equal. apply map_ext_in.
  intros l Hl%list_elem_of_In. by apply Hagree.
Qed.

Lemma index_own_namespace_only_witness :
  index Examples.ner_vocab Examples.ner_field
  = index {| get_token_index := λ l ns,
               if bool_decide (ns = "tokens") then 99
               else get_token_index Examples.ner_vocab l ns |}
          Examples.ner_field.
Proof.
  apply (index_own_namespace_only Examples.ner_vocab).
  intros l _. reflexivity.
Defined.

(** X9.  [as_array] reads nothing of the padding lengths but the entry
    "num_tokens", and nothing of the field but its resolved ids: without
    that entry it raises [KeyError], whatever state the field is in, and
    with it, other entries, the raw labels, the namespace and the
    companion make no difference to the result. *)
Theorem as_array_reads (f : SequenceLabelField) (pl : gmap string Z) :
  (pl !! "num_tokens" = None → as_array f pl = inl (KeyError "num_tokens"))
  ∧ (∀ (f' : SequenceLabelField) (pl' : gmap string Z),
       pl' !! "num_tokens" = pl !! "num_tokens" →
       _indexed_labels f' = _indexed_labels f →
       as_array f' pl' = as_array f pl).
Proof.
  unfold as_array. split.
  - intros ->. reflexivity.
  - intros f' pl' -> ->. reflexivity.
Qed.

Lemma as_array_reads_witness :
  as_array (index Examples.ner_vocab Examples.ner_field)
           {[ "num_token" := 5 ]}
  = inl (KeyError "num_tokens").
Proof.
  apply (as_array_reads (index Examples.ner_vocab Examples.ner_field)
           {[ "num_token" := 5 ]}).
  reflexivity.
Defined.
